(** * RayTracer: the vector, ray and colour core

    A shallow embedding of [Vec3.cpp], [Ray.h] and [Color.h].

    The C++ [double] is IEEE 754 binary64.  It is modelled by Rocq's primitive
    [float], whose operations are specified bit for bit by [SpecFloat]
    (a single NaN, signed zeros and infinities, round to nearest even).
    Every operation of the source rounds once, to binary64: no product is
    fused with a sum and no intermediate is kept in a wider format.  A
    decimal literal denotes the binary64 value nearest to it, as it does in
    C++.
    The member functions are written once, over a small interface of the
    arithmetic they use, so that the same text can also be read over the
    exact rationals [Q] when a statement compares the program with the
    mathematics it approximates. *)

From Stdlib Require Import ZArith QArith Qround Qfield Floats Bool.
From Stdlib Require Import String Ascii DecimalString List Lia.
Import ListNotations.

Set Warnings "-inexact-float".

(** ** The arithmetic of a scalar type *)

Declare Scope scalar_scope.
Delimit Scope scalar_scope with S.

Class Scalar (T : Type) : Type := {
  s_zero : T;
  s_one : T;
  s_add : T -> T -> T;
  s_sub : T -> T -> T;
  s_mul : T -> T -> T;
  s_div : T -> T -> T;
  s_opp : T -> T
}.

Notation "a + b" := (s_add a b) : scalar_scope.
Notation "a - b" := (s_sub a b) : scalar_scope.
Notation "a * b" := (s_mul a b) : scalar_scope.
Notation "a / b" := (s_div a b) : scalar_scope.
Notation "- a" := (s_opp a) : scalar_scope.

(** [double]: the arithmetic the compiled program runs. *)
#[export] Instance double : Scalar float := {|
  s_zero := 0%float;
  s_one := 1%float;
  s_add := PrimFloat.add;
  s_sub := PrimFloat.sub;
  s_mul := PrimFloat.mul;
  s_div := PrimFloat.div;
  s_opp := PrimFloat.opp
|}.

(** [exact]: the same operations without rounding. *)
#[export] Instance exact : Scalar Q := {|
  s_zero := 0%Q;
  s_one := 1%Q;
  s_add := Qplus;
  s_sub := Qminus;
  s_mul := Qmult;
  s_div := Qdiv;
  s_opp := Qopp
|}.

(** ** Member functions as state transformers

    A member function receives the object it is called on ([*this]) and
    returns its result together with the object as the call leaves it.
    [None] stands for undefined behaviour: the program has no error branch,
    and the only way to leave the defined behaviour of this code is to index
    the component array outside of it. *)

Section Method.
Context {S : Type}.

Definition method (A : Type) : Type := S -> option (A * S).

Definition ret {A : Type} (a : A) : method A :=
  fun this => Some (a, this).

Definition bind {A B : Type} (m : method A) (k : A -> method B) : method B :=
  fun this =>
    match m this with
    | Some (a, this') => k a this'
    | None => None
    end.

Definition get : method S := fun this => Some (this, this).

Definition put (s : S) : method unit := fun _ => Some (tt, s).

Definition undefined {A : Type} : method A := fun _ => None.

(** The result of a call and the object after it. *)
Definition result {A : Type} (m : method A) (this : S) : option A :=
  option_map fst (m this).

Definition after {A : Type} (m : method A) (this : S) : option S :=
  option_map snd (m this).
End Method.

Arguments method : clear implicits.

Notation "x <- m ;; k" := (bind m (fun x => k))
  (at level 61, m at next level, right associativity).
Notation "m ;; k" := (bind m (fun _ => k))
  (at level 61, right associativity).

(** ** Vec3.cpp *)

Module Vec3.

(** [double e[3]] *)
Record vec3 (T : Type) : Type := mk { e0 : T; e1 : T; e2 : T }.
Arguments mk {T} _ _ _.
Arguments e0 {T} _.
Arguments e1 {T} _.
Arguments e2 {T} _.

Section Members.
Context {T : Type} `{Scalar T}.
Local Open Scope scalar_scope.

(** The rvalue [e[i]] and the assignment [e[i] = a] on the receiver.
    The array has three elements; any other index is outside it. *)
Definition read_e (i : Z) : method (vec3 T) T :=
  this <- get ;;
  match i with
  | 0%Z => ret (e0 this)
  | 1%Z => ret (e1 this)
  | 2%Z => ret (e2 this)
  | _ => undefined
  end.

Definition write_e (i : Z) (a : T) : method (vec3 T) unit :=
  this <- get ;;
  match i with
  | 0%Z => put (mk a (e1 this) (e2 this))
  | 1%Z => put (mk (e0 this) a (e2 this))
  | 2%Z => put (mk (e0 this) (e1 this) a)
  | _ => undefined
  end.

(** [vec3::vec3() : e{0,0,0} {}] *)
Definition default : vec3 T := mk s_zero s_zero s_zero.

(** [vec3::vec3(double e0, double e1, double e2) : e{e0, e1, e2} {}] *)
Definition make (a b c : T) : vec3 T := mk a b c.

(** [double vec3::x() const { return e[0]; }] and its two siblings. *)
Definition x : method (vec3 T) T := read_e 0.
Definition y : method (vec3 T) T := read_e 1.
Definition z : method (vec3 T) T := read_e 2.

(** [vec3 vec3::operator-() const { return vec3(-e[0], -e[1], -e[2]); }] *)
Definition op_neg : method (vec3 T) (vec3 T) :=
  a <- read_e 0 ;;
  b <- read_e 1 ;;
  c <- read_e 2 ;;
  ret (make (- a) (- b) (- c)).

(** [double vec3::operator[](int i) const { return e[i]; }] *)
Definition op_index (i : Z) : method (vec3 T) T := read_e i.

(** [double &vec3::operator[](int i) { return e[i]; }]

    The call returns a reference to the element and touches nothing.
    A reference is the index of the element it designates; [load] and
    [store] are what the caller then does through it. *)
Definition reference : Type := Z.

Definition op_index_ref (i : Z) : method (vec3 T) reference :=
  _ <- read_e i ;;
  ret i.

Definition load (r : reference) : method (vec3 T) T := read_e r.
Definition store (r : reference) (a : T) : method (vec3 T) unit := write_e r a.

(** [vec3 &vec3::operator+=(const vec3 &v)]: three statements,
    [e[k] += v.e[k]] for k = 0, 1, 2; the reference it returns is the
    receiver.  Each statement reads the one component it assigns, so the
    value of [v] at the call is all that matters, also when [v] is the
    receiver. *)
Definition op_add_assign (v : vec3 T) : method (vec3 T) unit :=
  a <- read_e 0 ;; write_e 0 (a + e0 v) ;;
  b <- read_e 1 ;; write_e 1 (b + e1 v) ;;
  c <- read_e 2 ;; write_e 2 (c + e2 v).

(** [vec3 &vec3::operator*=(double t)]: [e[k] *= t] for k = 0, 1, 2. *)
Definition op_mul_assign (t : T) : method (vec3 T) unit :=
  a <- read_e 0 ;; write_e 0 (a * t) ;;
  b <- read_e 1 ;; write_e 1 (b * t) ;;
  c <- read_e 2 ;; write_e 2 (c * t).

(** [vec3 &vec3::operator/=(double t) { return *this *= 1/t; }] *)
Definition op_div_assign (t : T) : method (vec3 T) unit :=
  op_mul_assign (s_one / t).

(** [double vec3::length_squared() const]:
    [e[0]*e[0] + e[1]*e[1] + e[2]*e[2]], the sum associating to the left. *)
Definition length_squared : method (vec3 T) T :=
  a <- read_e 0 ;;
  b <- read_e 1 ;;
  c <- read_e 2 ;;
  ret (a * a + b * b + c * c).
End Members.

(** [double vec3::length() const { return std::sqrt(length_squared()); }]
    The square root exists on [double] only. *)
Definition length : method (vec3 float) float :=
  l <- length_squared ;;
  ret (PrimFloat.sqrt l).

End Vec3.

(** ** Vec3.h: the free operators

    [Vec3.h] is not among the sources; [Ray.h] uses two of its operators. *)

Module Vec3Ops.
Import Vec3.

Section Free.
Context {T : Type} `{Scalar T}.
Local Open Scope scalar_scope.

(** Modelled from the spec: [operator+(const vec3&, const vec3&)] of the
    absent [Vec3.h], "vector+vector", pure and returning a new value:
    the sum of the components, in x, y, z order. *)
Definition add (u v : vec3 T) : vec3 T :=
  make (e0 u + e0 v) (e1 u + e1 v) (e2 u + e2 v).

(** Modelled from the spec: [operator-(const vec3&, const vec3&)] of the
    absent [Vec3.h], "vector−vector". *)
Definition sub (u v : vec3 T) : vec3 T :=
  make (e0 u - e0 v) (e1 u - e1 v) (e2 u - e2 v).

(** Modelled from the spec: [operator*(double, const vec3&)] of the
    absent [Vec3.h], "scalar*vector". *)
Definition scale (t : T) (v : vec3 T) : vec3 T :=
  make (t * e0 v) (t * e1 v) (t * e2 v).
End Free.
End Vec3Ops.

(** ** Ray.h *)

Module Ray.
Import Vec3 Vec3Ops.

(** [vec3 orig; vec3 dir;]: two vectors of the ray's own, not references
    to the constructor's arguments. *)
Record Ray (T : Type) : Type := mk { orig : vec3 T; dir : vec3 T }.
Arguments mk {T} _ _.
Arguments orig {T} _.
Arguments dir {T} _.

Section Members.
Context {T : Type} `{Scalar T}.

(** [Ray() = default;]: each member is built by [vec3::vec3()]. *)
Definition default : Ray T := mk Vec3.default Vec3.default.

(** [Ray(const vec3& origin, const vec3& direction)
      : orig(origin), dir(direction) {}] *)
Definition make (origin direction : vec3 T) : Ray T := mk origin direction.

(** [const vec3& origin() const { return orig; }] *)
Definition origin : method (Ray T) (vec3 T) :=
  this <- get ;; ret (orig this).

(** [const vec3& direction() const { return dir; }] *)
Definition direction : method (Ray T) (vec3 T) :=
  this <- get ;; ret (dir this).

(** [vec3 at(double t) const { return orig + t*dir; }] *)
Definition at_ (t : T) : method (Ray T) (vec3 T) :=
  this <- get ;; ret (add (orig this) (scale t (dir this))).
End Members.
End Ray.

(** ** Color.h *)

Module Color.
Import Vec3.

(** [using color = vec3;] *)
Definition color : Type := vec3 float.

(** Modelled from the spec: the [floor] of [floor(255.999 * component)], on
    a finite [double].  The value of [S754_finite s m e] is
    [(-1)^s * m * 2^e], and shifting an integer to the right rounds towards
    minus infinity.  Infinities and NaN have no integer part. *)
Definition floor (a : float) : option Z :=
  match Prim2SF a with
  | S754_zero _ => Some 0%Z
  | S754_finite s m e => Some (Z.shiftl (if s then Zneg m else Zpos m) e)
  | S754_infinity _ => None
  | S754_nan => None
  end.

(** Modelled from the spec: an integer written "in decimal", as
    [operator<<] prints an [int]: the digits, a minus sign in front of a
    negative number. *)
Definition decimal (n : Z) : string := NilZero.string_of_int (Z.to_int n).

(** Modelled from the spec: "space-separated, one pixel per line". *)
Definition space : string := String " "%char EmptyString.

(** The end of a line, ['\n']. *)
Definition newline : string := String "010"%char EmptyString.

(** Modelled from the spec: [Color.cpp] is not among the sources, and
    [Color.h] only declares
    [void write_color(std::ostream& out, const color& pixel_color)].
    Each component becomes [floor(255.999 * component)], nothing is clamped,
    and the three integers are written in decimal, separated by a space, in
    R G B order, followed by the end of the line.  The stream is the text
    written so far. *)
Definition write_color (out : string) (pixel_color : color) : option string :=
  match floor (255.999 * e0 pixel_color),
        floor (255.999 * e1 pixel_color),
        floor (255.999 * e2 pixel_color) with
  | Some rbyte, Some gbyte, Some bbyte =>
      Some (out ++ decimal rbyte ++ space ++ decimal gbyte ++ space
                ++ decimal bbyte ++ newline)%string
  | _, _, _ => None
  end.

End Color.

(** ** The camera set-up of the render loop *)

Module Camera.

(** Modelled from the spec: the [round] of step 1, the nearest integer, a
    half rounding away from zero as [std::round] does. *)
Definition round (q : Q) : Z :=
  if Qle_bool 0 q then Qfloor (q + (1 # 2)) else Qceiling (q - (1 # 2)).

(** Modelled from the spec: [main.cpp] is not among the sources.  Step 1 of
    the render sequence derives
    [image_height = max(1, round(image_width / aspect_ratio))]; the formula
    is taken as the spec writes it, over exact numbers. *)
Definition image_height (image_width : Z) (aspect_ratio : Q) : Z :=
  Z.max 1 (round (inject_Z image_width / aspect_ratio)).

End Camera.

(** ** Vectors of doubles: finiteness and the comparison [==] *)

Module Double.
Import Vec3.

(** Neither an infinity nor NaN, in every component. *)
Definition finite (v : vec3 float) : bool :=
  is_finite (e0 v) && is_finite (e1 v) && is_finite (e2 v).

(** Component by component, with the comparison of [double]: the two zeros
    are equal and NaN is equal to nothing. *)
Definition same (u v : vec3 float) : bool :=
  ((e0 u =? e0 v) && (e1 u =? e1 v) && (e2 u =? e2 v))%float.

(** An infinity or NaN: what a division by zero leaves behind. *)
Definition inf_or_nan (a : float) : bool := is_infinity a || is_nan a.

End Double.

(** ** The public interfaces, call by call *)

Module Interface.
Import Vec3.

(** The member functions of [vec3] that [Vec3.cpp] defines. *)
Inductive member : Type :=
| MX | MY | MZ | MNeg | MIndex | MIndexRef
| MAddAssign | MMulAssign | MDivAssign
| MLength | MLengthSquared.

(** A call of one of them, with its arguments. *)
Inductive call : Type :=
| CallX
| CallY
| CallZ
| CallNeg
| CallIndex (i : Z)
| CallIndexRef (i : Z)
| CallAddAssign (v : vec3 float)
| CallMulAssign (t : float)
| CallDivAssign (t : float)
| CallLength
| CallLengthSquared.

Definition member_of (c : call) : member :=
  match c with
  | CallX => MX
  | CallY => MY
  | CallZ => MZ
  | CallNeg => MNeg
  | CallIndex _ => MIndex
  | CallIndexRef _ => MIndexRef
  | CallAddAssign _ => MAddAssign
  | CallMulAssign _ => MMulAssign
  | CallDivAssign _ => MDivAssign
  | CallLength => MLength
  | CallLengthSquared => MLengthSquared
  end.

(** The receiver as the call leaves it. *)
Definition receiver_after (c : call) : vec3 float -> option (vec3 float) :=
  match c with
  | CallX => after x
  | CallY => after y
  | CallZ => after z
  | CallNeg => after op_neg
  | CallIndex i => after (op_index i)
  | CallIndexRef i => after (op_index_ref i)
  | CallAddAssign v => after (op_add_assign v)
  | CallMulAssign t => after (op_mul_assign t)
  | CallDivAssign t => after (op_div_assign t)
  | CallLength => after length
  | CallLengthSquared => after length_squared
  end.

(** The member functions declared [const]. *)
Definition is_const (m : member) : bool :=
  match m with
  | MX | MY | MZ | MNeg | MIndex | MLength | MLengthSquared => true
  | MIndexRef | MAddAssign | MMulAssign | MDivAssign => false
  end.

(** [operator+=], [operator*=], [operator/=]. *)
Definition compound_assignment (m : member) : bool :=
  match m with
  | MAddAssign | MMulAssign | MDivAssign => true
  | _ => false
  end.

(** Some call of [m] leaves some receiver different from what it was. *)
Definition mutates (m : member) : Prop :=
  exists c v v',
    member_of c = m /\ receiver_after c v = Some v' /\ v' <> v.

Section RayCalls.
Context {T : Type} `{Scalar T}.

(** The member functions of [Ray], after construction. *)
Inductive ray_call : Type :=
| CallOrigin
| CallDirection
| CallAt (t : T).

Definition ray_after (c : ray_call) : Ray.Ray T -> option (Ray.Ray T) :=
  match c with
  | CallOrigin => after Ray.origin
  | CallDirection => after Ray.direction
  | CallAt t => after (Ray.at_ t)
  end.

(** A sequence of calls on one ray, first call first. *)
Fixpoint ray_after_all (cs : list ray_call) (r : Ray.Ray T)
  : option (Ray.Ray T) :=
  match cs with
  | [] => Some r
  | c :: cs' =>
      match ray_after c r with
      | Some r' => ray_after_all cs' r'
      | None => None
      end
  end.
End RayCalls.

End Interface.

(** ** Division as the words have it, and equality of exact vectors *)

Module Ideal.
Import Vec3.

Section Division.
Context {T : Type} `{Scalar T}.
Local Open Scope scalar_scope.

(** In-place scalar division as the words have it: every component
    divided by [t]. *)
Definition divide_components (t : T) (v : vec3 T) : vec3 T :=
  mk (e0 v / t) (e1 v / t) (e2 v / t).
End Division.

(** Equality of exact vectors: the components are equal as rationals. *)
Definition eq_exact (u v : vec3 Q) : Prop :=
  e0 u == e0 v /\ e1 u == e1 v /\ e2 u == e2 v.

End Ideal.

(** ** Further classifications of doubles and of vectors of doubles *)

Module Classify.
Import Vec3.

(** Some component is NaN. *)
Definition has_nan (v : vec3 float) : bool :=
  is_nan (e0 v) || is_nan (e1 v) || is_nan (e2 v).

(** Every component is a zero, of either sign. *)
Definition all_zero (v : vec3 float) : bool :=
  is_zero (e0 v) && is_zero (e1 v) && is_zero (e2 v).

(** On the decoded form of a double: NaN. *)
Definition nanb (x : spec_float) : bool :=
  match x with
  | S754_nan => true
  | _ => false
  end.

(** On the decoded form: the sign bit is clear and the value is a number,
    that is +0, a positive finite number or +infinity. *)
Definition plus_signed (x : spec_float) : bool :=
  match x with
  | S754_zero false => true
  | S754_infinity false => true
  | S754_finite false _ _ => true
  | _ => false
  end.

(** NaN, or a number with the sign bit clear: what a square, a sum of
    squares and the root of such a sum can be. *)
Definition nan_or_plus (x : spec_float) : bool :=
  nanb x || plus_signed x.

End Classify.

(** ** Facts about binary64, from the specification of the primitives *)

Section FloatFacts.
Local Open Scope float_scope.

Lemma SFcompare_refl (s : spec_float) :
  s <> S754_nan -> SFcompare s s = Some Eq.
Proof.
  destruct s as [[]|[]| |[] m e]; simpl; try congruence; intros _;
    rewrite Z.compare_refl; fold (Pos.compare m m);
    rewrite Pos.compare_refl; reflexivity.
Qed.

Lemma is_nan_SF (a : float) : is_nan a = true <-> Prim2SF a = S754_nan.
Proof.
  unfold is_nan. rewrite FloatAxioms.eqb_spec. unfold SFeqb.
  destruct (Prim2SF a) as [s|s| |s m e] eqn:E.
  all: try (rewrite SFcompare_refl by discriminate; simpl; split; discriminate).
  simpl. tauto.
Qed.

Lemma is_infinity_SF (a : float) :
  is_infinity a = true <-> exists s, Prim2SF a = S754_infinity s.
Proof.
  unfold is_infinity. rewrite FloatAxioms.eqb_spec, abs_spec.
  change (Prim2SF PrimFloat.infinity) with (S754_infinity false).
  destruct (Prim2SF a) as [s|s| |s m e]; simpl; split;
    try discriminate; try (intros [s' Hs]; discriminate); eauto.
Qed.

Lemma is_zero_SF (a : float) :
  is_zero a = true <-> exists s, Prim2SF a = S754_zero s.
Proof.
  unfold is_zero. rewrite FloatAxioms.eqb_spec.
  change (Prim2SF PrimFloat.zero) with (S754_zero false).
  destruct (Prim2SF a) as [s|s| |s m e]; simpl; split;
    try discriminate; try (intros [s' Hs]; discriminate); eauto.
  - destruct s; discriminate.
  - destruct s; discriminate.
Qed.

Lemma is_finite_SF (a : float) :
  is_finite a = true <->
  (exists s, Prim2SF a = S754_zero s) \/
  (exists s m e, Prim2SF a = S754_finite s m e).
Proof.
  unfold is_finite. rewrite negb_true_iff, orb_false_iff.
  split.
  - intros [Hn Hi].
    destruct (Prim2SF a) as [s|s| |s m e] eqn:E; eauto.
    + assert (is_infinity a = true) by (apply is_infinity_SF; eauto).
      congruence.
    + assert (is_nan a = true) by (apply is_nan_SF; eauto). congruence.
  - intros Hf. split.
    + destruct (is_nan a) eqn:E; [|reflexivity].
      apply is_nan_SF in E.
      destruct Hf as [[s Hs]|(s & m & e & Hs)]; congruence.
    + destruct (is_infinity a) eqn:E; [|reflexivity].
      apply is_infinity_SF in E. destruct E as [s' E].
      destruct Hf as [[s Hs]|(s & m & e & Hs)]; congruence.
Qed.

(** [0 * b] is a zero when [b] is finite, and adding a zero to a finite [a]
    gives [a] back, up to the sign of a zero. *)
Lemma add_zero_mul_finite (a b : float) :
  is_finite a = true -> is_finite b = true -> (a + 0 * b =? a) = true.
Proof.
  intros Ha Hb. rewrite FloatAxioms.eqb_spec, add_spec, mul_spec.
  change (Prim2SF 0) with (S754_zero false).
  apply is_finite_SF in Ha, Hb.
  assert (Hz : exists s, SF64mul (S754_zero false) (Prim2SF b) = S754_zero s).
  { destruct Hb as [[s ->]|(s & m & e & ->)]; simpl; eauto. }
  destruct Hz as [sz ->].
  unfold SFeqb.
  destruct Ha as [[s ->]|(s & m & e & ->)].
  - destruct s, sz; reflexivity.
  - unfold SF64add, SFadd. rewrite SFcompare_refl by discriminate.
    reflexivity.
Qed.

(** Multiplying by one rounds nothing: the product of the mantissas is the
    mantissa of [s] followed by 52 zero bits, which the rounding shifts out
    again. *)
Lemma SFmul_one_l (s : spec_float) :
  valid_binary s = true -> SF64mul (Prim2SF 1) s = s.
Proof.
  change (Prim2SF 1) with (S754_finite false 4503599627370496 (-52)).
  destruct s as [s|s| |s m e]; try reflexivity.
  intros Hv. simpl in Hv. unfold bounded, canonical_mantissa in Hv.
  apply andb_prop in Hv. destruct Hv as [Hc He].
  apply Z.eqb_eq in Hc.
  unfold SF64mul, SFmul. cbn [xorb Pos.mul].
  unfold binary_round_aux.
  unfold shr_fexp at 1.
  cbn [Zdigits2 digits2_pos].
  match goal with |- context [fexp prec emax ?a] =>
    replace a with (Z.pos (digits2_pos m) + e)%Z by lia end.
  rewrite Hc.
  replace (e - (-52 + e))%Z with 52%Z by lia.
  cbn [shr shr_record_of_loc iter_pos shr_1 orb].
  cbn [shr_m loc_of_shr_record round_nearest_even].
  replace (-52 + e + 52)%Z with e by lia.
  unfold shr_fexp. cbn [Zdigits2]. rewrite Hc.
  rewrite Z.sub_diag. cbn [shr shr_record_of_loc shr_m].
  rewrite He. reflexivity.
Qed.

Lemma mul_one_l (a : float) : 1 * a = a.
Proof.
  apply Prim2SF_inj. rewrite mul_spec. apply SFmul_one_l, Prim2SF_valid.
Qed.

(** [1/t] is an infinity when [t] is a zero, and an infinity times anything
    is an infinity or NaN. *)
Lemma mul_recip_zero (a t : float) :
  is_zero t = true -> Double.inf_or_nan (a * (1 / t)) = true.
Proof.
  intros Ht. apply is_zero_SF in Ht. destruct Ht as [st Ht].
  unfold Double.inf_or_nan. apply orb_true_iff.
  rewrite is_infinity_SF, is_nan_SF, mul_spec, div_spec, Ht.
  change (Prim2SF 1) with (S754_finite false 4503599627370496 (-52)).
  simpl.
  destruct (Prim2SF a) as [s|s| |s m e]; simpl; eauto.
Qed.

End FloatFacts.

(** ** Ray *)

Section RayTheorems.
Import Vec3 Vec3Ops Ray Double.
Local Open Scope float_scope.

(** Over exact numbers [at] is affine without any side condition: it starts
    at the origin, reaches [origin + direction] at 1, and satisfies
    [at(t1) + at(t2) - at(0) = at(t1 + t2)] for every ray. *)
Lemma at_affine_exact (r : Ray Q) (t1 t2 : Q) :
  let p t := add (orig r) (scale t (dir r)) in
  result (at_ t1) r = Some (p t1) /\
  Ideal.eq_exact (p 0%Q) (orig r) /\
  Ideal.eq_exact (p 1%Q) (add (orig r) (dir r)) /\
  Ideal.eq_exact (sub (add (p t1) (p t2)) (p 0%Q)) (p (t1 + t2)%Q).
Proof.
  destruct r as [[ox oy oz] [dx dy dz]]. cbn.
  repeat split; cbn; ring.
Qed.

(** C1. For every ray [r] and every parameter [t], negative or not,
    [r.at(t)] returns [r.origin() + t * r.direction()], component by
    component [o + t * d], and leaves the ray as it was.  On doubles
    [r.at(1)] is [r.origin() + r.direction()] exactly, and [r.at(0)] is
    equal to [r.origin()] under the comparison of doubles when the ray is
    finite (the one difference a finite ray can show is the sign of a
    zero).  Over exact numbers [r.at(0)] is [r.origin()] and [r.at(1)] is
    [r.origin() + r.direction()] for every ray. *)
Theorem ray_at_origin_plus_t_direction :
  (forall (r : Ray float) (t : float),
     result origin r = Some (orig r) /\
     result direction r = Some (dir r) /\
     result (at_ t) r = Some (add (orig r) (scale t (dir r))) /\
     add (orig r) (scale t (dir r)) =
       Vec3.mk (e0 (orig r) + t * e0 (dir r))
               (e1 (orig r) + t * e1 (dir r))
               (e2 (orig r) + t * e2 (dir r)) /\
     after (at_ t) r = Some r /\
     result (at_ 1) r = Some (add (orig r) (dir r)) /\
     (finite (orig r) = true -> finite (dir r) = true ->
      exists p, result (at_ 0) r = Some p /\ same p (orig r) = true)) /\
  (forall (r : Ray Q) (t : Q),
     result (at_ t) r = Some (add (orig r) (scale t (dir r))) /\
     (exists p, result (at_ 0%Q) r = Some p /\
                Ideal.eq_exact p (orig r)) /\
     (exists p, result (at_ 1%Q) r = Some p /\
                Ideal.eq_exact p (add (orig r) (dir r)))).
Proof.
  split.
  - intros [[ox oy oz] [dx dy dz]] t. cbn.
    repeat split.
    + unfold scale, add, Vec3.make. cbn. now rewrite !mul_one_l.
    + unfold finite. cbn. intros Ho Hd.
      apply andb_prop in Ho, Hd. destruct Ho as [Ho Hoz], Hd as [Hd Hdz].
      apply andb_prop in Ho, Hd. destruct Ho as [Hox Hoy], Hd as [Hdx Hdy].
      eexists. split; [reflexivity|].
      unfold same. cbn.
      now rewrite !add_zero_mul_finite.
  - intros r t.
    destruct (at_affine_exact r t t) as (Ht & H0 & H1 & _).
    split; [exact Ht|]. split; eexists; (split; [reflexivity|assumption]).
Qed.

(** The ray from (-0, 1, 2) along (3, 4, 5): [at(0)] is (+0, 1, 2), which
    compares equal to the origin. *)
Lemma ray_at_origin_plus_t_direction_witness :
  result (at_ 0) (make (Vec3.mk (-0) 1 2) (Vec3.mk 3 4 5)) =
    Some (Vec3.mk 0 1 2) /\
  exists p,
    result (at_ 0) (make (Vec3.mk (-0) 1 2) (Vec3.mk 3 4 5)) = Some p /\
    same p (Vec3.mk (-0) 1 2) = true.
Proof.
  split; [reflexivity|].
  exact (proj2 (proj2 (proj2 (proj2 (proj2 (proj2
    (proj1 ray_at_origin_plus_t_direction
       (make (Vec3.mk (-0) 1 2) (Vec3.mk 3 4 5)) 0))))))
    eq_refl eq_refl).
Defined.

(** Outside the finite rays [at(0)] need not be the origin: along an
    infinite direction [0 * d] is NaN. *)
Lemma at_zero_of_infinite_direction :
  result (at_ 0) (make (Vec3.mk 0 0 0) (Vec3.mk PrimFloat.infinity 0 0)) =
    Some (Vec3.mk PrimFloat.nan 0 0) /\
  same (Vec3.mk PrimFloat.nan 0 0) (Vec3.mk 0 0 0) = false.
Proof. split; reflexivity. Qed.

(** On doubles the same identity holds wherever nothing is rounded, as from
    the origin (1, 2, 3) along (1, 0, -1) with [t1 = 1] and [t2 = 2]. *)
Lemma at_additive_on_some_doubles :
  let r := make (Vec3.mk 1 2 3) (Vec3.mk 1 0 (-1)) in
  exists a1 a2 a0 a12 : vec3 float,
    result (at_ 1) r = Some a1 /\
    result (at_ 2) r = Some a2 /\
    result (at_ 0) r = Some a0 /\
    result (at_ (1 + 2)) r = Some a12 /\
    sub (add a1 a2) a0 = a12.
Proof.
  cbv zeta. do 4 eexists. repeat split.
Qed.

(** C3. There is a ray, with finite components and finite parameters, on
    which [at(t1) + at(t2) - at(0)] differs from [at(t1 + t2)]: from the
    origin (1, 0, 0) along (0.1, 0, 0) with [t1 = 1] and [t2 = 2] the left
    side has x = 1.2999999999999998 and the right side x = 1.3.  The
    difference is one of rounding ([at_affine_exact],
    [at_additive_on_some_doubles]). *)
Theorem ray_at_not_additive :
  exists (r : Ray float) (t1 t2 : float) (a1 a2 a0 a12 : vec3 float),
    finite (orig r) = true /\ finite (dir r) = true /\
    is_finite t1 = true /\ is_finite t2 = true /\
    result (at_ t1) r = Some a1 /\
    result (at_ t2) r = Some a2 /\
    result (at_ 0) r = Some a0 /\
    result (at_ (t1 + t2)) r = Some a12 /\
    sub (add a1 a2) a0 = Vec3.mk 1.2999999999999998 0 0 /\
    a12 = Vec3.mk 1.3 0 0 /\
    same (sub (add a1 a2) a0) a12 = false.
Proof.
  exists (make (Vec3.mk 1 0 0) (Vec3.mk 0.1 0 0)), 1, 2.
  do 4 eexists.
  repeat split; vm_compute; reflexivity.
Qed.

(** C8. [Ray()] has the origin (0,0,0) and the direction (0,0,0).  A ray
    built from [(origin, direction)] holds both: whatever calls of
    [origin()], [direction()] and [at(t)] are made on it, in whatever order,
    the ray is afterwards what it was at construction, and [origin()] and
    [direction()] return the two vectors given then. *)
Theorem ray_construction_and_immutability :
  (result origin (@Ray.default float _) = Some (Vec3.mk 0 0 0) /\
   result direction (@Ray.default float _) = Some (Vec3.mk 0 0 0)) /\
  (forall (o d : vec3 float) (cs : list Interface.ray_call),
     exists r,
       Interface.ray_after_all cs (make o d) = Some r /\
       r = make o d /\
       result origin r = Some o /\
       result direction r = Some d).
Proof.
  split; [split; reflexivity|].
  intros o d cs. exists (make o d).
  split; [|repeat split].
  induction cs as [|c cs IH]; [reflexivity|].
  cbn [Interface.ray_after_all].
  destruct c; cbn; exact IH.
Qed.

End RayTheorems.

(** ** Vec3 *)

Section Vec3Theorems.
Import Vec3 Double Interface.
Local Open Scope float_scope.

(** A call of a [const] member function leaves the receiver as it was. *)
Lemma const_call_frame (c : call) (v v' : vec3 float) :
  is_const (member_of c) = true -> receiver_after c v = Some v' -> v' = v.
Proof.
  destruct v as [a b d].
  destruct c; cbn; try discriminate; intros _ E; try congruence.
  destruct i as [|[[]|[]|]|]; cbn in E; congruence.
Qed.

(** So does the call of the read-write [operator[]] itself. *)
Lemma index_ref_call_frame (i : Z) (v v' : vec3 float) :
  receiver_after (CallIndexRef i) v = Some v' -> v' = v.
Proof.
  destruct v as [a b d].
  destruct i as [|[[]|[]|]|]; cbn; congruence.
Qed.

Lemma add_assign_mutates : mutates MAddAssign.
Proof.
  exists (CallAddAssign (mk 1 1 1)), (mk 1 2 3), (mk 2 3 4).
  repeat split. intros E. apply (f_equal e0), (f_equal Prim2SF) in E.
  vm_compute in E. discriminate.
Qed.

Lemma mul_assign_mutates : mutates MMulAssign.
Proof.
  exists (CallMulAssign 2), (mk 1 2 3), (mk 2 4 6).
  repeat split. intros E. apply (f_equal e0), (f_equal Prim2SF) in E.
  vm_compute in E. discriminate.
Qed.

Lemma div_assign_mutates : mutates MDivAssign.
Proof.
  exists (CallDivAssign 2), (mk 1 2 3), (mk 0.5 1 1.5).
  repeat split. intros E. apply (f_equal e0), (f_equal Prim2SF) in E.
  vm_compute in E. discriminate.
Qed.

(** The claim of C4 as it is worded, with two mutating operations, fails:
    [v += (1,1,1)], [v *= 2] and [v /= 2] each change [v = (1,2,3)], to
    (2,3,4), (2,4,6) and (0.5,1,1.5), and they are three different member
    functions, so no two member functions account for every change. *)
Lemma two_mutating_operations_refuted :
  receiver_after (CallAddAssign (mk 1 1 1)) (mk 1 2 3) = Some (mk 2 3 4) /\
  receiver_after (CallMulAssign 2) (mk 1 2 3) = Some (mk 2 4 6) /\
  receiver_after (CallDivAssign 2) (mk 1 2 3) = Some (mk 0.5 1 1.5) /\
  ~ (exists m1 m2 : member, forall m, mutates m -> m = m1 \/ m = m2).
Proof.
  repeat split.
  intros (m1 & m2 & Hm).
  destruct (Hm _ add_assign_mutates), (Hm _ mul_assign_mutates),
    (Hm _ div_assign_mutates); congruence.
Qed.

(** C4, amended.  Calling [x()], [y()], [z()], the const [operator[]],
    unary minus, [length()] or [length_squared()] leaves all three
    components of the receiver unchanged, and so does the call of the
    read-write [operator[]]; the member functions that change a receiver
    are exactly the three compound assignments [+=], [*=] and [/=].  What
    else can change a vector is the caller's own store through the reference
    that the read-write [operator[]] returned. *)
Theorem vec3_frame :
  (forall (c : call) (v v' : vec3 float),
     compound_assignment (member_of c) = false ->
     receiver_after c v = Some v' ->
     e0 v' = e0 v /\ e1 v' = e1 v /\ e2 v' = e2 v) /\
  (forall v : vec3 float,
     after x v = Some v /\ after y v = Some v /\ after z v = Some v /\
     after op_neg v = Some v /\
     after length v = Some v /\ after length_squared v = Some v /\
     (forall i, (0 <= i <= 2)%Z ->
        after (op_index i) v = Some v /\ after (op_index_ref i) v = Some v)) /\
  (forall m : member, mutates m <-> compound_assignment m = true) /\
  (exists r,
     op_index_ref 1 (mk 1 2 3) = Some (r, mk 1 2 3) /\
     store r 5 (mk 1 2 3) = Some (tt, mk 1 5 3)).
Proof.
  split; [|split; [|split; [|exists 1%Z; split; reflexivity]]].
  - intros c v v' Hc E.
    assert (v' = v) as ->; [|auto].
    destruct (is_const (member_of c)) eqn:K.
    + eapply const_call_frame; eauto.
    + destruct c; try discriminate. eapply index_ref_call_frame; eauto.
  - intros [a b d]. repeat split.
    + assert (i = 0 \/ i = 1 \/ i = 2)%Z as [-> | [-> | ->]] by lia;
        reflexivity.
    + assert (i = 0 \/ i = 1 \/ i = 2)%Z as [-> | [-> | ->]] by lia;
        reflexivity.
  - intros m. split.
    + intros (c & v & v' & <- & E & Hne).
      destruct (compound_assignment (member_of c)) eqn:K; [reflexivity|].
      exfalso. apply Hne.
      destruct (is_const (member_of c)) eqn:K'.
      * eapply const_call_frame; eauto.
      * destruct c; try discriminate. eapply index_ref_call_frame; eauto.
    + destruct m; try discriminate; intros _.
      * apply add_assign_mutates.
      * apply mul_assign_mutates.
      * apply div_assign_mutates.
Qed.

(** With [v = (1,2,3)] and the call [-v]. *)
Lemma vec3_frame_witness :
  result op_neg (mk 1 2 3) = Some (mk (-1) (-2) (-3)) /\
  receiver_after CallNeg (mk 1 2 3) = Some (mk 1 2 3) /\
  e0 (mk 1 2 3) = 1 /\ e1 (mk 1 2 3) = 2 /\ e2 (mk 1 2 3) = 3.
Proof.
  split; [reflexivity|]. split; [reflexivity|].
  exact (proj1 vec3_frame CallNeg (mk 1 2 3) (mk 1 2 3) eq_refl eq_refl).
Defined.

(** Outside 0, 1, 2 an index has no defined behaviour, and no error value
    either: there is nothing a caller could test. *)
Lemma index_out_of_range (v : vec3 float) (i : Z) :
  (i < 0 \/ 2 < i)%Z ->
  op_index i v = None /\ op_index_ref i v = None.
Proof.
  intros Hi. destruct i as [|[[]|[]|]|]; try lia; split; reflexivity.
Qed.

(** C5. For an index [i] in 0, 1, 2 the const [operator[]] is defined,
    returns the i-th component ([v[0]] is [x()], [v[1]] is [y()], [v[2]] is
    [z()]) and leaves [v] alone; the read-write [operator[]] is defined too
    and returns a reference to that same component: reading through it gives
    the component, and a store through it is read back at [i] and leaves the
    other two components as they were. *)
Theorem index_access (v : vec3 float) (i : Z) (Hi : (0 <= i <= 2)%Z) :
  exists (a : float) (r : reference),
    op_index i v = Some (a, v) /\
    (i = 0%Z -> a = e0 v /\ result x v = Some a) /\
    (i = 1%Z -> a = e1 v /\ result y v = Some a) /\
    (i = 2%Z -> a = e2 v /\ result z v = Some a) /\
    op_index_ref i v = Some (r, v) /\
    load r v = Some (a, v) /\
    (forall b : float,
       exists v',
         store r b v = Some (tt, v') /\
         op_index i v' = Some (b, v') /\
         (forall j, (0 <= j <= 2)%Z -> j <> i ->
            result (op_index j) v' = result (op_index j) v)).
Proof.
  destruct v as [a0 a1 a2].
  assert (i = 0 \/ i = 1 \/ i = 2)%Z as [-> | [-> | ->]] by lia.
  - exists a0, 0%Z. repeat split; try discriminate; try congruence.
    intros b. eexists. repeat split.
    intros j Hj Hne.
    assert (j = 1 \/ j = 2)%Z as [-> | ->] by lia; reflexivity.
  - exists a1, 1%Z. repeat split; try discriminate; try congruence.
    intros b. eexists. repeat split.
    intros j Hj Hne.
    assert (j = 0 \/ j = 2)%Z as [-> | ->] by lia; reflexivity.
  - exists a2, 2%Z. repeat split; try discriminate; try congruence.
    intros b. eexists. repeat split.
    intros j Hj Hne.
    assert (j = 0 \/ j = 1)%Z as [-> | ->] by lia; reflexivity.
Qed.

(** Index 1 of (1, 2, 3). *)
Lemma index_access_witness :
  exists (a : float) (r : reference),
    op_index 1 (mk 1 2 3) = Some (a, mk 1 2 3) /\
    ((1 = 0)%Z -> a = 1 /\ result x (mk 1 2 3) = Some a) /\
    ((1 = 1)%Z -> a = 2 /\ result y (mk 1 2 3) = Some a) /\
    ((1 = 2)%Z -> a = 3 /\ result z (mk 1 2 3) = Some a) /\
    op_index_ref 1 (mk 1 2 3) = Some (r, mk 1 2 3) /\
    load r (mk 1 2 3) = Some (a, mk 1 2 3) /\
    (forall b : float,
       exists v',
         store r b (mk 1 2 3) = Some (tt, v') /\
         op_index 1 v' = Some (b, v') /\
         (forall j, (0 <= j <= 2)%Z -> j <> 1%Z ->
            result (op_index j) v' = result (op_index j) (mk 1 2 3))).
Proof.
  apply (index_access (mk 1 2 3) 1). lia.
Defined.

(** C6. [length_squared()] returns [x*x + y*y + z*z], a sum of three
    products and nothing else, and [length()] returns the square root of
    what [length_squared()] returns. *)
Theorem length_squared_and_length (v : vec3 float) :
  result length_squared v =
    Some (e0 v * e0 v + e1 v * e1 v + e2 v * e2 v) /\
  result length v = option_map PrimFloat.sqrt (result length_squared v) /\
  result length v =
    Some (PrimFloat.sqrt (e0 v * e0 v + e1 v * e1 v + e2 v * e2 v)).
Proof.
  destruct v as [a b c]. repeat split.
Qed.

(** The vector (3, 4, 0) has squared length 25 and length 5. *)
Example length_3_4_0 :
  result length_squared (mk 3 4 0) = Some 25 /\
  result length (mk 3 4 0) = Some 5.
Proof. split; reflexivity. Qed.

(** C7. Dividing in place by a zero of either sign raises nothing: the call
    is defined, and every component it leaves is an infinity or NaN. *)
Theorem div_assign_by_zero (v : vec3 float) (t : float)
  (Ht : is_zero t = true) :
  exists v',
    op_div_assign t v = Some (tt, v') /\
    inf_or_nan (e0 v') = true /\
    inf_or_nan (e1 v') = true /\
    inf_or_nan (e2 v') = true.
Proof.
  destruct v as [a b c]. eexists. split; [reflexivity|].
  cbn. auto using mul_recip_zero.
Qed.

(** (1, 0, -2) divided by 0 is (infinity, NaN, -infinity). *)
Lemma div_assign_by_zero_witness :
  op_div_assign 0 (mk 1 0 (-2)) =
    Some (tt, mk PrimFloat.infinity PrimFloat.nan PrimFloat.neg_infinity) /\
  exists v',
    op_div_assign 0 (mk 1 0 (-2)) = Some (tt, v') /\
    inf_or_nan (e0 v') = true /\
    inf_or_nan (e1 v') = true /\
    inf_or_nan (e2 v') = true.
Proof.
  split; [reflexivity|].
  apply (div_assign_by_zero (mk 1 0 (-2)) 0). reflexivity.
Defined.

(** C10. [v /= t] is [v *= 1/t]: each component is multiplied by the
    reciprocal of [t].  On doubles that is not always the component divided
    by [t] (5 * (1/3) is 1.6666666666666665 and 5/3 is 1.6666666666666667);
    over exact numbers, for [t] other than zero, it is. *)
Theorem div_assign_multiplies_by_reciprocal :
  (forall (T : Type) (S : Scalar T) (t : T),
     op_div_assign t = op_mul_assign (s_one / t)%S) /\
  (forall (v : vec3 float) (t : float),
     after (op_div_assign t) v =
       Some (mk (e0 v * (1 / t)) (e1 v * (1 / t)) (e2 v * (1 / t)))) /\
  (after (op_div_assign 3) (mk 5 5 5) =
     Some (mk 1.6666666666666665 1.6666666666666665 1.6666666666666665) /\
   Ideal.divide_components 3 (mk 5 5 5) =
     mk 1.6666666666666667 1.6666666666666667 1.6666666666666667) /\
  (forall (v : vec3 Q) (t : Q),
     ~ t == 0 ->
     exists v',
       after (op_div_assign t) v = Some v' /\
       Ideal.eq_exact v' (Ideal.divide_components t v)).
Proof.
  split; [reflexivity|]. split; [intros [a b c] t; reflexivity|].
  split; [split; reflexivity|].
  intros [a b c] t Ht. eexists. split; [reflexivity|].
  repeat split; cbn; field; exact Ht.
Qed.

(** (1, 2, 3) divided by 2, exactly. *)
Lemma div_assign_multiplies_by_reciprocal_witness :
  exists v',
    after (op_div_assign (2 # 1)) (mk (1 # 1) (2 # 1) (3 # 1)) = Some v' /\
    Ideal.eq_exact v'
      (Ideal.divide_components (2 # 1) (mk (1 # 1) (2 # 1) (3 # 1))).
Proof.
  apply (proj2 (proj2 (proj2 div_assign_multiplies_by_reciprocal))).
  intros E. vm_compute in E. discriminate.
Defined.

End Vec3Theorems.

(** ** Color *)

Section ColorTheorems.
Import Vec3 Color.
Local Open Scope float_scope.

(** [floor] rounds down: for a finite double of value [sm * 2^e] the result
    [n] is the integer with [n * 2^(-e) <= sm < (n + 1) * 2^(-e)] when the
    exponent is negative, and [sm * 2^e] itself otherwise. *)
Lemma floor_rounds_down (a : float) (s : bool) (m : positive) (e : Z) :
  Prim2SF a = S754_finite s m e ->
  let sm := if s then Zneg m else Zpos m in
  exists n,
    floor a = Some n /\
    ((0 <= e)%Z -> n = (sm * 2 ^ e)%Z) /\
    ((e < 0)%Z -> (n * 2 ^ (- e) <= sm < (n + 1) * 2 ^ (- e))%Z).
Proof.
  intros E sm. unfold floor. rewrite E. fold sm.
  eexists. split; [reflexivity|]. split; intros He.
  - now rewrite Z.shiftl_mul_pow2.
  - rewrite Z.shiftl_div_pow2 by lia.
    assert (Hp : (0 < 2 ^ (- e))%Z) by (apply Z.pow_pos_nonneg; lia).
    pose proof (Z.mul_div_le sm _ Hp).
    pose proof (Z.mul_succ_div_gt sm _ Hp).
    nia.
Qed.

(** A finite double has an integer part. *)
Lemma floor_defined (a : float) :
  is_finite a = true -> exists n, floor a = Some n.
Proof.
  intros Ha. apply is_finite_SF in Ha. unfold floor.
  destruct Ha as [[s ->]|(s & m & e & ->)]; eauto.
Qed.

(** C2. [write_color] appends one line to the stream: the three integers
    [floor(255.999 * c)] of the components in R, G, B order, in decimal,
    with one space between them; it does so whenever the three products are
    finite.  Nothing is clamped: (2, -1, 0.5) is written as [511 -256 127].
    White is written as [255 255 255], black as [0 0 0] and
    (0.5, 0.5, 0.5) as [127 127 127], 255.999 * 0.5 being 127.9995. *)
Theorem write_color_output :
  (forall (out : string) (c : color),
     is_finite (255.999 * e0 c) = true ->
     is_finite (255.999 * e1 c) = true ->
     is_finite (255.999 * e2 c) = true ->
     exists r g b : Z,
       floor (255.999 * e0 c) = Some r /\
       floor (255.999 * e1 c) = Some g /\
       floor (255.999 * e2 c) = Some b /\
       write_color out c =
         Some (out ++ decimal r ++ " " ++ decimal g ++ " " ++ decimal b
                   ++ newline)%string) /\
  (forall out : string,
     write_color out (mk 1 1 1) =
       Some (out ++ "255 255 255" ++ newline)%string /\
     write_color out (mk 0 0 0) =
       Some (out ++ "0 0 0" ++ newline)%string /\
     write_color out (mk 0.5 0.5 0.5) =
       Some (out ++ "127 127 127" ++ newline)%string /\
     write_color out (mk 2 (-1) 0.5) =
       Some (out ++ "511 -256 127" ++ newline)%string) /\
  (255.999 * 0.5 = 127.9995 /\ floor 127.9995 = Some 127%Z /\
   floor (255.999 * 2) = Some 511%Z /\ floor (255.999 * -1) = Some (-256)%Z).
Proof.
  split; [|split].
  - intros out c Hr Hg Hb.
    destruct (floor_defined _ Hr) as [r Er].
    destruct (floor_defined _ Hg) as [g Eg].
    destruct (floor_defined _ Hb) as [b Eb].
    exists r, g, b. unfold write_color.
    now rewrite Er, Eg, Eb.
  - intros out. repeat split; vm_compute; reflexivity.
  - repeat split; vm_compute; reflexivity.
Qed.

(** The pixel (0.25, 0.5, 1) after the header [P3]: [63 127 255]. *)
Lemma write_color_output_witness :
  write_color "P3" (mk 0.25 0.5 1) =
    Some ("P3" ++ "63 127 255" ++ newline)%string /\
  exists r g b : Z,
    floor (255.999 * 0.25) = Some r /\
    floor (255.999 * 0.5) = Some g /\
    floor (255.999 * 1) = Some b /\
    write_color "P3" (mk 0.25 0.5 1) =
      Some ("P3" ++ decimal r ++ " " ++ decimal g ++ " " ++ decimal b
                 ++ newline)%string.
Proof.
  split; [vm_compute; reflexivity|].
  apply (proj1 write_color_output "P3"%string (mk 0.25 0.5 1));
    reflexivity.
Defined.

End ColorTheorems.

(** ** Camera *)

Section CameraTheorems.
Import Camera.

(** C9. For a positive width and a positive aspect ratio the derived height
    [max(1, round(image_width / aspect_ratio))] is at least 1; where the
    quotient rounds to 0, or below, the height is 1. *)
Theorem image_height_at_least_one (image_width : Z) (aspect_ratio : Q) :
  (0 < image_width)%Z -> 0 < aspect_ratio ->
  (1 <= image_height image_width aspect_ratio)%Z /\
  image_height image_width aspect_ratio =
    Z.max 1 (round (inject_Z image_width / aspect_ratio)) /\
  ((round (inject_Z image_width / aspect_ratio) <= 0)%Z ->
   image_height image_width aspect_ratio = 1%Z).
Proof.
  intros _ _. unfold image_height. repeat split; lia.
Qed.

(** Width 1 at aspect ratio 4: the quotient 1/4 rounds to 0 and the height
    is 1.  Width 400 at 16/9 gives 225. *)
Lemma image_height_at_least_one_witness :
  round (inject_Z 1 / (4 # 1)) = 0%Z /\
  image_height 400 (16 # 9) = 225%Z /\
  (1 <= image_height 1 (4 # 1))%Z /\
  image_height 1 (4 # 1) = Z.max 1 (round (inject_Z 1 / (4 # 1))) /\
  ((round (inject_Z 1 / (4 # 1)) <= 0)%Z -> image_height 1 (4 # 1) = 1%Z).
Proof.
  split; [reflexivity|]. split; [reflexivity|].
  apply (image_height_at_least_one 1 (4 # 1)); reflexivity.
Defined.

End CameraTheorems.

(** ** More facts about binary64 *)

Section FloatAlgebra.
Import Classify.
Local Open Scope float_scope.

Lemma SFopp_involutive (s : spec_float) : SFopp (SFopp s) = s.
Proof. destruct s as [[]|[]| |[] m e]; reflexivity. Qed.

Lemma opp_involutive (a : float) : - - a = a.
Proof. apply Prim2SF_inj. now rewrite !opp_spec, SFopp_involutive. Qed.

Lemma SFmul_comm (x y : spec_float) : SF64mul x y = SF64mul y x.
Proof.
  unfold SF64mul.
  destruct x as [sx|sx| |sx mx ex], y as [sy|sy| |sy my ey]; simpl;
    try reflexivity; try (now rewrite xorb_comm).
  now rewrite xorb_comm, Pos.mul_comm, Z.add_comm.
Qed.

Lemma mul_comm (a b : float) : a * b = b * a.
Proof. apply Prim2SF_inj. rewrite !mul_spec. apply SFmul_comm. Qed.

Lemma mul_one_r (a : float) : a * 1 = a.
Proof. rewrite mul_comm. apply mul_one_l. Qed.

Lemma SFadd_comm (x y : spec_float) : SF64add x y = SF64add y x.
Proof.
  unfold SF64add.
  destruct x as [sx|sx| |sx mx ex], y as [sy|sy| |sy my ey]; simpl;
    try reflexivity; try (destruct sx, sy; reflexivity).
  now rewrite Z.min_comm, Z.add_comm.
Qed.

Lemma add_comm (a b : float) : a + b = b + a.
Proof. apply Prim2SF_inj. rewrite !add_spec. apply SFadd_comm. Qed.

Lemma SFmul_opp_opp (x y : spec_float) :
  SF64mul (SFopp x) (SFopp y) = SF64mul x y.
Proof.
  unfold SF64mul.
  destruct x as [sx|sx| |sx mx ex], y as [sy|sy| |sy my ey]; simpl;
    try reflexivity; destruct sx, sy; reflexivity.
Qed.

Lemma mul_opp_opp (a b : float) : (- a) * (- b) = a * b.
Proof.
  apply Prim2SF_inj. rewrite !mul_spec, !opp_spec. apply SFmul_opp_opp.
Qed.

(** A sign can be moved from one factor to the other. *)
Lemma mul_opp_swap (a b : float) : (- a) * b = a * (- b).
Proof.
  apply Prim2SF_inj. rewrite !mul_spec, !opp_spec. unfold SF64mul.
  destruct (Prim2SF a) as [sx|sx| |sx mx ex],
           (Prim2SF b) as [sy|sy| |sy my ey]; simpl;
    try reflexivity; destruct sx, sy; reflexivity.
Qed.

(** Multiplying by plus or minus one: the mantissa comes back as it was,
    the sign is kept or flipped. *)
Lemma SFmul_signed_one_l (b : bool) (s : spec_float) :
  valid_binary s = true ->
  SF64mul (S754_finite b 4503599627370496 (-52)) s =
    if b then SFopp s else s.
Proof.
  destruct s as [s|s| |s m e].
  1-3: destruct b; reflexivity.
  intros Hv. simpl in Hv. unfold bounded, canonical_mantissa in Hv.
  apply andb_prop in Hv. destruct Hv as [Hc He].
  apply Z.eqb_eq in Hc.
  unfold SF64mul, SFmul. cbn [Pos.mul].
  unfold binary_round_aux.
  unfold shr_fexp at 1.
  cbn [Zdigits2 digits2_pos].
  match goal with |- context [fexp prec emax ?a] =>
    replace a with (Z.pos (digits2_pos m) + e)%Z by lia end.
  rewrite Hc.
  replace (e - (-52 + e))%Z with 52%Z by lia.
  cbn [shr shr_record_of_loc iter_pos shr_1 orb].
  cbn [shr_m loc_of_shr_record round_nearest_even].
  replace (-52 + e + 52)%Z with e by lia.
  unfold shr_fexp. cbn [Zdigits2]. rewrite Hc.
  rewrite Z.sub_diag. cbn [shr shr_record_of_loc shr_m].
  rewrite He. destruct b; reflexivity.
Qed.

Lemma mul_minus_one_r (a : float) : a * -1 = - a.
Proof.
  rewrite mul_comm.
  apply Prim2SF_inj. rewrite mul_spec, opp_spec.
  change (Prim2SF (-1)) with (S754_finite true 4503599627370496 (-52)).
  apply (SFmul_signed_one_l true), Prim2SF_valid.
Qed.

(** A finite number and its opposite add up to +0. *)
Lemma add_opp_finite (a : float) : is_finite a = true -> a + - a = 0.
Proof.
  intros Ha. apply is_finite_SF in Ha.
  apply Prim2SF_inj. rewrite add_spec, opp_spec.
  change (Prim2SF 0) with (S754_zero false).
  destruct Ha as [[s ->]|(s & m & e & ->)].
  - destruct s; reflexivity.
  - unfold SF64add. cbn [SFopp SFadd]. rewrite Z.min_id.
    unfold shl_align. rewrite Z.sub_diag. cbn [fst].
    assert (E : (cond_Zopp s (Z.pos m) + cond_Zopp (negb s) (Z.pos m))%Z
                = 0%Z) by (destruct s; cbn [negb cond_Zopp]; lia).
    rewrite E. reflexivity.
Qed.

(** Adding +0 changes nothing but a -0, which becomes +0. *)
Lemma add_zero_r (a : float) : a <> -0 -> a + 0 = a.
Proof.
  intros Ha. apply Prim2SF_inj. rewrite add_spec.
  change (Prim2SF 0) with (S754_zero false).
  destruct (Prim2SF a) as [[]|[]| |[] m e] eqn:E; try reflexivity.
  exfalso. apply Ha. apply Prim2SF_inj. rewrite E. reflexivity.
Qed.

Lemma add_zero_r_same (a : float) :
  is_nan a = false -> (a + 0 =? a) = true.
Proof.
  intros Ha. rewrite FloatAxioms.eqb_spec, add_spec.
  change (Prim2SF 0) with (S754_zero false).
  destruct (Prim2SF a) as [[]|[]| |[] m e] eqn:E;
    try (unfold SF64add, SFadd, SFeqb;
         rewrite SFcompare_refl by discriminate; reflexivity);
    try reflexivity.
  assert (is_nan a = true) by (now apply is_nan_SF). congruence.
Qed.

(** A finite number times a zero is a zero. *)
Lemma mul_zero_finite (a t : float) :
  is_finite a = true -> is_zero t = true -> is_zero (a * t) = true.
Proof.
  intros Ha Ht. apply is_finite_SF in Ha. apply is_zero_SF in Ht.
  apply is_zero_SF. rewrite mul_spec. destruct Ht as [st ->].
  destruct Ha as [[s ->]|(s & m & e & ->)]; simpl; eauto.
Qed.

(** +0 plus a finite multiple of +0 is +0. *)
Lemma zero_add_mul_zero (t : float) :
  is_finite t = true -> 0 + t * 0 = 0.
Proof.
  intros Ht. apply is_finite_SF in Ht.
  apply Prim2SF_inj. rewrite add_spec, mul_spec.
  change (Prim2SF 0) with (S754_zero false).
  destruct Ht as [[s ->]|(s & m & e & ->)]; destruct s; reflexivity.
Qed.

(** The sum of a double with itself is its product with two: the sum has
    the mantissa followed by one zero bit, the product by 52 of them, and
    the rounding shifts both to the same place. *)
Lemma shr_fexp_doubled (m : positive) (e : Z) :
  fexp prec emax (Z.pos (digits2_pos m) + e) = e ->
  let '(mz, ez) :=
    shl_align m~0 e (fexp prec emax (Z.pos (digits2_pos m~0) + e)) in
  shr_fexp prec emax (Z.pos mz) ez loc_Exact =
  shr_fexp prec emax (Z.pos (4503599627370496 * m)) (-51 + e) loc_Exact.
Proof.
  intros Hc. cbn [Pos.mul digits2_pos].
  set (e' := fexp prec emax (Z.pos (Pos.succ (digits2_pos m)) + e)).
  assert (He' : e' = e \/ e' = (e + 1)%Z).
  { unfold e'. unfold fexp, emin in *. cbv [prec emax] in *. lia. }
  assert (Hr : forall a, a = (Z.pos (Pos.succ (digits2_pos m)) + e)%Z ->
                         fexp prec emax a = e') by (intros a ->; reflexivity).
  unfold shl_align, shr_fexp. cbn [Zdigits2 digits2_pos].
  rewrite (Hr (_ + (-51 + e))%Z) by lia.
  destruct He' as [E | E]; rewrite E.
  - rewrite Z.sub_diag. cbn [Zdigits2 digits2_pos]. fold e'. rewrite E.
    rewrite Z.sub_diag.
    replace (e - (-51 + e))%Z with 51%Z by lia.
    cbn [shr shr_record_of_loc iter_pos shr_1 orb].
    replace (-51 + e + 51)%Z with e by lia.
    reflexivity.
  - replace (e + 1 - e)%Z with 1%Z by lia.
    cbn [Zdigits2 digits2_pos]. fold e'. rewrite E.
    replace (e + 1 - e)%Z with 1%Z by lia.
    replace (e + 1 - (-51 + e))%Z with 52%Z by lia.
    cbn [shr shr_record_of_loc iter_pos shr_1 orb].
    replace (-51 + e + 52)%Z with (e + 1)%Z by lia.
    reflexivity.
Qed.

Lemma SFadd_diag_mul_two (x : spec_float) :
  valid_binary x = true ->
  SF64add x x = SF64mul (Prim2SF 2) x.
Proof.
  change (Prim2SF 2) with (S754_finite false 4503599627370496 (-51)).
  destruct x as [[]|[]| |s m e]; try reflexivity.
  intros Hv. simpl in Hv. unfold bounded, canonical_mantissa in Hv.
  apply andb_prop in Hv. destruct Hv as [Hc He].
  apply Z.eqb_eq in Hc.
  pose proof (shr_fexp_doubled m e Hc) as Hd.
  unfold SF64add, SFadd, SF64mul, SFmul. rewrite Z.min_id.
  unfold shl_align at 1 2. rewrite Z.sub_diag. cbn [fst xorb].
  assert (Hsum : (cond_Zopp s (Z.pos m) + cond_Zopp s (Z.pos m))%Z
                 = cond_Zopp s (Z.pos m~0)).
  { destruct s; cbn [cond_Zopp]; lia. }
  rewrite Hsum.
  assert (Hn : binary_normalize prec emax (cond_Zopp s (Z.pos m~0)) e false
               = binary_round prec emax s (m~0) e).
  { destruct s; reflexivity. }
  rewrite Hn. unfold binary_round.
  destruct (shl_align m~0 e _) as [mz ez].
  unfold binary_round_aux. rewrite Hd. reflexivity.
Qed.

Lemma add_diag_mul_two (a : float) : a + a = a * 2.
Proof.
  rewrite (mul_comm a 2).
  apply Prim2SF_inj. rewrite add_spec, mul_spec.
  apply SFadd_diag_mul_two, Prim2SF_valid.
Qed.

(** *** Signs through the rounding *)

Lemma shr_1_nonneg (mrs : shr_record) :
  (0 <= shr_m mrs)%Z -> (0 <= shr_m (shr_1 mrs))%Z.
Proof.
  destruct mrs as [[|[p|p|]|p] r s]; cbn; lia.
Qed.

Lemma iter_pos_shr_1_nonneg (p : positive) : forall mrs,
  (0 <= shr_m mrs)%Z -> (0 <= shr_m (iter_pos shr_1 p mrs))%Z.
Proof.
  induction p as [p IH|p IH|]; intros mrs Hm; cbn [iter_pos];
    auto using shr_1_nonneg.
Qed.

Lemma shr_fexp_nonneg (m e : Z) (l : location) :
  (0 <= m)%Z -> (0 <= shr_m (fst (shr_fexp prec emax m e l)))%Z.
Proof.
  intros Hm. unfold shr_fexp, shr.
  assert (H0 : (0 <= shr_m (shr_record_of_loc m l))%Z)
    by (destruct l as [|[]]; exact Hm).
  destruct (fexp prec emax (Zdigits2 m + e) - e)%Z; cbn [fst]; auto.
  now apply iter_pos_shr_1_nonneg.
Qed.

(** Rounding a non-negative mantissa with the sign bit clear gives +0, a
    positive finite number or +infinity, never NaN. *)
Lemma binary_round_aux_plus (m e : Z) (l : location) :
  (0 <= m)%Z -> plus_signed (binary_round_aux prec emax false m e l) = true.
Proof.
  intros Hm. unfold binary_round_aux.
  pose proof (shr_fexp_nonneg m e l Hm) as H1.
  destruct (shr_fexp prec emax m e l) as [mrs' e'] eqn:E1. cbn [fst] in H1.
  set (m1 := round_nearest_even (shr_m mrs') (loc_of_shr_record mrs')).
  assert (Hm1 : (0 <= m1)%Z).
  { unfold m1, round_nearest_even.
    destruct (loc_of_shr_record mrs') as [|[]]; try lia.
    destruct (Z.even (shr_m mrs')); lia. }
  pose proof (shr_fexp_nonneg m1 e' loc_Exact Hm1) as H2.
  destruct (shr_fexp prec emax m1 e' loc_Exact) as [mrs'' e''] eqn:E2.
  cbn [fst] in H2.
  destruct (shr_m mrs'') as [|p|p]; try reflexivity; [|lia].
  destruct (e'' <=? emax - prec)%Z; reflexivity.
Qed.

Lemma plus_signed_not_nan (x : spec_float) :
  plus_signed x = true -> nan_or_plus x = true /\ nanb x = false.
Proof.
  destruct x as [[]|[]| |[] m e]; try discriminate; split; reflexivity.
Qed.

(** A square is NaN exactly when its argument is, and has the sign bit
    clear otherwise. *)
Lemma SFmul_self (x : spec_float) :
  nan_or_plus (SF64mul x x) = true /\ nanb (SF64mul x x) = nanb x.
Proof.
  destruct x as [[]|[]| |s m e]; try (split; reflexivity).
  unfold SF64mul, SFmul. rewrite xorb_nilpotent.
  apply plus_signed_not_nan, binary_round_aux_plus. lia.
Qed.

(** A sum of two such values is one again, NaN exactly when a term is. *)
Lemma SFadd_nan_or_plus (x y : spec_float) :
  nan_or_plus x = true -> nan_or_plus y = true ->
  nan_or_plus (SF64add x y) = true /\
  nanb (SF64add x y) = nanb x || nanb y.
Proof.
  destruct x as [[]|[]| |[] mx ex], y as [[]|[]| |[] my ey];
    try discriminate; try (split; reflexivity).
  intros _ _. unfold SF64add, SFadd. cbn [cond_Zopp].
  unfold binary_normalize.
  destruct (shl_align mx ex (Z.min ex ey)) as [a ea].
  destruct (shl_align my ey (Z.min ex ey)) as [b eb]. cbn [fst].
  cbn [Z.add]. unfold binary_round.
  destruct (shl_align _ _ _) as [mz ez].
  cbn [nanb orb].
  apply plus_signed_not_nan, binary_round_aux_plus. lia.
Qed.

(** So is the square root of one. *)
Lemma SFsqrt_nan_or_plus (x : spec_float) :
  nan_or_plus x = true ->
  nan_or_plus (SF64sqrt x) = true /\ nanb (SF64sqrt x) = nanb x.
Proof.
  destruct x as [[]|[]| |[] m e]; try discriminate; try (split; reflexivity).
  intros _. unfold SF64sqrt, SFsqrt.
  destruct (SFsqrt_core_binary prec emax (Z.pos m) e) as [[mz ez] lz] eqn:E.
  assert (Hmz : (0 <= mz)%Z).
  { unfold SFsqrt_core_binary in E.
    set (e' := Z.min _ _) in E.
    set (m' := match (e - 2 * e')%Z with
               | Z0 => _ | Zpos _ => _ | Zneg _ => _ end) in E.
    assert (Hm' : (0 <= m')%Z).
    { unfold m'. destruct (e - 2 * e')%Z; try lia.
      apply Z.shiftl_nonneg. lia. }
    pose proof (Z.sqrtrem_spec m' Hm') as Hs.
    destruct (Z.sqrtrem m') as [q r]. injection E as <- _ _. lia. }
  cbn [nanb].
  now apply plus_signed_not_nan, binary_round_aux_plus.
Qed.

Lemma is_nan_nanb (a : float) : is_nan a = nanb (Prim2SF a).
Proof.
  destruct (is_nan a) eqn:E.
  - apply is_nan_SF in E. now rewrite E.
  - destruct (Prim2SF a) eqn:E'; try reflexivity.
    apply is_nan_SF in E'. congruence.
Qed.

(** A number with the sign bit clear is at least zero. *)
Lemma plus_signed_leb (a : float) :
  plus_signed (Prim2SF a) = true -> (0 <=? a) = true.
Proof.
  rewrite leb_spec. change (Prim2SF 0) with (S754_zero false).
  destruct (Prim2SF a) as [[]|[]| |[] m e]; try discriminate; reflexivity.
Qed.

End FloatAlgebra.

(** ** Vec3: how the operations compose *)

Section Vec3Composition.
Import Vec3 Double Classify.
Local Open Scope float_scope.

(** X1. Unary minus is an involution on doubles, bit for bit: negating the
    vector that [-v] returns gives [v] back, whatever the components are
    (zeros of either sign, infinities, NaN). *)
Theorem neg_involutive (v : vec3 float) :
  exists w,
    result op_neg v = Some w /\ result op_neg w = Some v.
Proof.
  destruct v as [a b c]. eexists. split; [reflexivity|].
  cbn. unfold make. now rewrite !opp_involutive.
Qed.

(** X2. Unary minus keeps the length: [(-v).length_squared()] and
    [(-v).length()] are the same doubles as [v.length_squared()] and
    [v.length()]. *)
Theorem neg_preserves_length (v : vec3 float) :
  exists w,
    result op_neg v = Some w /\
    result length_squared w = result length_squared v /\
    result length w = result length v.
Proof.
  destruct v as [a b c]. eexists. split; [reflexivity|].
  cbn. now rewrite !mul_opp_opp.
Qed.

(** X3. [length_squared()] and [length()] return NaN exactly when a
    component of the vector is NaN; otherwise what they return is at least
    zero (it may be +infinity). *)
Theorem length_sign (v : vec3 float) :
  exists l2 l,
    result length_squared v = Some l2 /\
    result length v = Some l /\
    is_nan l2 = has_nan v /\
    is_nan l = has_nan v /\
    (has_nan v = false -> (0 <=? l2) = true /\ (0 <=? l) = true).
Proof.
  destruct v as [a b c]. do 2 eexists.
  split; [reflexivity|]. split; [reflexivity|].
  unfold has_nan. cbn [e0 e1 e2].
  set (l2 := a * a + b * b + c * c).
  destruct (SFmul_self (Prim2SF a)) as [Pa Na].
  destruct (SFmul_self (Prim2SF b)) as [Pb Nb].
  destruct (SFmul_self (Prim2SF c)) as [Pc Nc].
  destruct (SFadd_nan_or_plus _ _ Pa Pb) as [Pab Nab].
  destruct (SFadd_nan_or_plus _ _ Pab Pc) as [P2 N2].
  destruct (SFsqrt_nan_or_plus _ P2) as [P1 N1].
  assert (E2 : Prim2SF l2 =
               SF64add (SF64add (SF64mul (Prim2SF a) (Prim2SF a))
                                (SF64mul (Prim2SF b) (Prim2SF b)))
                       (SF64mul (Prim2SF c) (Prim2SF c))).
  { unfold l2. now rewrite !add_spec, !mul_spec. }
  assert (E1 : Prim2SF (sqrt l2) = SF64sqrt (Prim2SF l2))
    by apply sqrt_spec.
  rewrite <- E2 in P2, N2, P1, N1. rewrite <- E1 in P1, N1.
  rewrite Nab, Na, Nb, Nc in N2. rewrite N2 in N1.
  rewrite !is_nan_nanb.
  split; [exact N2|]. split; [exact N1|].
  intros Hn. rewrite Hn in N1, N2.
  unfold nan_or_plus in P1, P2. rewrite N1 in P1. rewrite N2 in P2.
  split; apply plus_signed_leb; assumption.
Qed.

(** X4. A vector whose components are zeros, of either sign, has
    [length_squared()] and [length()] equal to +0.  The converse fails on
    doubles: the squares of (1e-200, 0, 0) underflow and its length is 0,
    and those of (1e200, 0, 0) overflow and its length is +infinity. *)
Theorem length_of_zero_vector :
  (forall v : vec3 float,
     all_zero v = true ->
     result length_squared v = Some 0 /\ result length v = Some 0) /\
  (all_zero (mk 1e-200 0 0) = false /\
   result length (mk 1e-200 0 0) = Some 0) /\
  (finite (mk 1e200 0 0) = true /\
   result length (mk 1e200 0 0) = Some PrimFloat.infinity).
Proof.
  split; [|split; split; reflexivity].
  intros [a b c] Hz. unfold all_zero in Hz. cbn [e0 e1 e2] in Hz.
  apply andb_prop in Hz. destruct Hz as [Hz Hc].
  apply andb_prop in Hz. destruct Hz as [Ha Hb].
  apply is_zero_SF in Ha, Hb, Hc.
  destruct Ha as [sa Ha], Hb as [sb Hb], Hc as [sc Hc].
  assert (E : a * a + b * b + c * c = 0).
  { apply Prim2SF_inj. rewrite !add_spec, !mul_spec, Ha, Hb, Hc.
    destruct sa, sb, sc; reflexivity. }
  cbn. rewrite E. split; reflexivity.
Qed.

(** The vector (-0, 0, -0). *)
Lemma length_of_zero_vector_witness :
  result length_squared (mk (-0) 0 (-0)) = Some 0 /\
  result length (mk (-0) 0 (-0)) = Some 0.
Proof.
  apply (proj1 length_of_zero_vector (mk (-0) 0 (-0))). reflexivity.
Defined.

(** X5. Multiplying and dividing in place by one change nothing: after
    [v *= 1] and after [v /= 1] every component is the double it was. *)
Theorem mul_div_assign_one (v : vec3 float) :
  after (op_mul_assign 1) v = Some v /\
  after (op_div_assign 1) v = Some v.
Proof.
  destruct v as [a b c]. split.
  - cbn. now rewrite !mul_one_r.
  - unfold op_div_assign. cbn [s_div s_one double].
    change (1 / 1) with 1. cbn. now rewrite !mul_one_r.
Qed.

(** X6. Multiplying or dividing in place by minus one leaves the vector
    that unary minus returns. *)
Theorem mul_div_assign_minus_one (v : vec3 float) :
  after (op_mul_assign (-1)) v = result op_neg v /\
  after (op_div_assign (-1)) v = result op_neg v.
Proof.
  destruct v as [a b c]. split.
  - cbn. unfold make. now rewrite !mul_minus_one_r.
  - unfold op_div_assign. cbn [s_div s_one double].
    change (1 / -1) with (-1). cbn. unfold make.
    now rewrite !mul_minus_one_r.
Qed.

(** X7. In-place addition does not depend on which vector is the receiver:
    [v += w] leaves in [v] the doubles that [w += v] leaves in [w]. *)
Theorem add_assign_commutes (v w : vec3 float) :
  after (op_add_assign w) v = after (op_add_assign v) w.
Proof.
  destruct v as [a b c], w as [a' b' c']. cbn.
  now rewrite (add_comm a a'), (add_comm b b'), (add_comm c c').
Qed.

(** X8. Adding a vector to itself is doubling it: [v += v] leaves the
    doubles that [v *= 2] leaves, overflow to an infinity included. *)
Theorem add_assign_self_doubles (v : vec3 float) :
  after (op_add_assign v) v = after (op_mul_assign 2) v.
Proof.
  destruct v as [a b c]. cbn. now rewrite !add_diag_mul_two.
Qed.

(** X9. Adding to a finite vector its own negation leaves (+0, +0, +0),
    the vector [vec3()] builds. *)
Theorem add_assign_negation (v : vec3 float) :
  finite v = true ->
  after (w <- op_neg ;; op_add_assign w) v = Some Vec3.default.
Proof.
  destruct v as [a b c]. unfold finite. cbn [e0 e1 e2]. intros Hf.
  apply andb_prop in Hf. destruct Hf as [Hf Hc].
  apply andb_prop in Hf. destruct Hf as [Ha Hb].
  cbn. now rewrite !add_opp_finite.
Qed.

(** (1.5, -0, 1e300) plus its negation; and an infinite component gives
    NaN instead. *)
Lemma add_assign_negation_witness :
  after (w <- op_neg ;; op_add_assign w) (mk 1.5 (-0) 1e300)
    = Some (mk 0 0 0) /\
  after (w <- op_neg ;; op_add_assign w) (mk PrimFloat.infinity 0 0)
    = Some (mk PrimFloat.nan 0 0).
Proof.
  split; [|reflexivity].
  apply (add_assign_negation (mk 1.5 (-0) 1e300)). reflexivity.
Defined.

(** X10. Adding the vector of [vec3()] to a vector without NaN leaves a
    vector equal to it under the comparison of doubles, and bit for bit
    the same vector when no component is -0; a component -0 becomes +0. *)
Theorem add_assign_default (v : vec3 float) :
  (has_nan v = false ->
   exists v',
     after (op_add_assign Vec3.default) v = Some v' /\ same v' v = true) /\
  (e0 v <> -0 -> e1 v <> -0 -> e2 v <> -0 ->
   after (op_add_assign Vec3.default) v = Some v) /\
  after (op_add_assign Vec3.default) (mk (-0) 1 2) = Some (mk 0 1 2).
Proof.
  destruct v as [a b c]. split; [|split; [|reflexivity]].
  - unfold has_nan. cbn [e0 e1 e2]. intros Hn.
    apply orb_false_elim in Hn. destruct Hn as [Hn Hc].
    apply orb_false_elim in Hn. destruct Hn as [Ha Hb].
    eexists. split; [reflexivity|]. unfold same. cbn.
    now rewrite !add_zero_r_same.
  - cbn. intros Ha Hb Hc. now rewrite !add_zero_r.
Qed.

(** The vector (1, +infinity, -2.5). *)
Lemma add_assign_default_witness :
  (exists v',
     after (op_add_assign Vec3.default) (mk 1 PrimFloat.infinity (-2.5))
       = Some v' /\
     same v' (mk 1 PrimFloat.infinity (-2.5)) = true) /\
  after (op_add_assign Vec3.default) (mk 1 PrimFloat.infinity (-2.5))
    = Some (mk 1 PrimFloat.infinity (-2.5)).
Proof.
  split.
  - apply (proj1 (add_assign_default (mk 1 PrimFloat.infinity (-2.5)))).
    reflexivity.
  - apply (proj1 (proj2 (add_assign_default
                           (mk 1 PrimFloat.infinity (-2.5)))));
      intros E; apply (f_equal Prim2SF) in E; vm_compute in E;
      discriminate.
Defined.

(** X11. Multiplying a finite vector in place by a zero of either sign
    leaves three zeros, equal to [vec3()] under the comparison of doubles. *)
Theorem mul_assign_by_zero (v : vec3 float) (t : float) :
  is_zero t = true -> finite v = true ->
  exists v',
    after (op_mul_assign t) v = Some v' /\
    all_zero v' = true /\ same v' Vec3.default = true.
Proof.
  destruct v as [a b c]. unfold finite. cbn [e0 e1 e2]. intros Ht Hf.
  apply andb_prop in Hf. destruct Hf as [Hf Hc].
  apply andb_prop in Hf. destruct Hf as [Ha Hb].
  exists (mk (a * t) (b * t) (c * t)). split; [reflexivity|].
  pose proof (mul_zero_finite a t Ha Ht) as Za.
  pose proof (mul_zero_finite b t Hb Ht) as Zb.
  pose proof (mul_zero_finite c t Hc Ht) as Zc.
  unfold all_zero, same, Vec3.default, is_zero in *.
  cbn [e0 e1 e2 s_zero s_mul double].
  unfold PrimFloat.zero in *.
  now rewrite Za, Zb, Zc.
Qed.

(** (3, -4, 0) times -0 is (-0, +0, -0). *)
Lemma mul_assign_by_zero_witness :
  after (op_mul_assign (-0)) (mk 3 (-4) 0) = Some (mk (-0) 0 (-0)) /\
  exists v',
    after (op_mul_assign (-0)) (mk 3 (-4) 0) = Some v' /\
    all_zero v' = true /\ same v' Vec3.default = true.
Proof.
  split; [reflexivity|].
  apply (mul_assign_by_zero (mk 3 (-4) 0) (-0)); reflexivity.
Defined.

(** X12. Dividing in place by [t] and multiplying by [t] again gives the
    vector back over exact numbers, for [t] other than zero; on doubles it
    need not: (7, 7, 7) divided by 3 and multiplied by 3 is
    6.9999999999999991 in every component. *)
Theorem div_then_mul_assign :
  (forall (v : vec3 Q) (t : Q),
     ~ t == 0 ->
     exists v',
       after (op_div_assign t ;; op_mul_assign t) v = Some v' /\
       Ideal.eq_exact v' v) /\
  after (op_div_assign 3 ;; op_mul_assign 3) (mk 7 7 7) =
    Some (mk 6.9999999999999991 6.9999999999999991 6.9999999999999991).
Proof.
  split; [|reflexivity].
  intros [a b c] t Ht. eexists. split; [reflexivity|].
  repeat split; cbn; field; exact Ht.
Qed.

(** (7, 7, 7) divided by 3 and multiplied by 3, exactly. *)
Lemma div_then_mul_assign_witness :
  exists v',
    after (op_div_assign (3 # 1) ;; op_mul_assign (3 # 1))
      (mk (7 # 1) (7 # 1) (7 # 1)) = Some v' /\
    Ideal.eq_exact v' (mk (7 # 1) (7 # 1) (7 # 1)).
Proof.
  apply (proj1 div_then_mul_assign).
  intros E. vm_compute in E. discriminate.
Defined.

End Vec3Composition.

(** ** Vec3: stores through the references of [operator[]] *)

Section Vec3Stores.
Import Vec3.
Context {T : Type} `{Scalar T}.

(** X13. Of two stores through references to the same component the later
    one wins, and stores through references to different components can be
    made in either order. *)
Theorem store_store (v : vec3 T) (i j : Z) (a b : T) :
  (0 <= i <= 2)%Z -> (0 <= j <= 2)%Z ->
  exists ri rj,
    result (op_index_ref i) v = Some ri /\
    result (op_index_ref j) v = Some rj /\
    after (store ri a ;; store ri b) v = after (store ri b) v /\
    (i <> j ->
     after (store ri a ;; store rj b) v =
     after (store rj b ;; store ri a) v).
Proof.
  intros Hi Hj. destruct v as [x0 x1 x2].
  assert (i = 0 \/ i = 1 \/ i = 2)%Z as [-> | [-> | ->]] by lia;
  assert (j = 0 \/ j = 1 \/ j = 2)%Z as [-> | [-> | ->]] by lia;
  do 2 eexists; (split; [reflexivity|]); (split; [reflexivity|]);
  (split; [reflexivity|]); intros Hne; try reflexivity; congruence.
Qed.

End Vec3Stores.

Section Vec3StoresExample.
Import Vec3.
Local Open Scope float_scope.

(** Components 0 and 2 of (1, 2, 3). *)
Lemma store_store_witness :
  exists ri rj,
    result (op_index_ref 0) (mk 1 2 3) = Some ri /\
    result (op_index_ref 2) (mk 1 2 3) = Some rj /\
    after (store ri 7 ;; store ri 8) (mk 1 2 3)
      = after (store ri 8) (mk 1 2 3) /\
    (0%Z <> 2%Z ->
     after (store ri 7 ;; store rj 8) (mk 1 2 3) =
     after (store rj 8 ;; store ri 7) (mk 1 2 3)).
Proof.
  apply (store_store (mk 1 2 3) 0 2 7 8); lia.
Defined.

End Vec3StoresExample.

(** ** Ray: the default ray *)

Section RayDefault.
Import Vec3 Vec3Ops Ray.
Local Open Scope float_scope.

(** X14. On the ray [Ray()] builds, [at(t)] is (+0, +0, +0) for every
    finite [t]; for an infinite [t] it is NaN in every component. *)
Theorem default_ray_at (t : float) :
  is_finite t = true ->
  result (at_ t) Ray.default = Some (Vec3.mk 0 0 0).
Proof.
  intros Ht. cbn. unfold add, scale, Vec3.make. cbn.
  now rewrite !zero_add_mul_zero.
Qed.

(** At [t = -2.5]; and at [t = +infinity]. *)
Lemma default_ray_at_witness :
  result (at_ (-2.5)) Ray.default = Some (Vec3.mk 0 0 0) /\
  result (at_ PrimFloat.infinity) Ray.default =
    Some (Vec3.mk PrimFloat.nan PrimFloat.nan PrimFloat.nan).
Proof.
  split; [|reflexivity].
  apply (default_ray_at (-2.5)). reflexivity.
Defined.

End RayDefault.

(** ** Ray: behind the origin *)

Section RayBackwards.
Import Vec3 Vec3Ops Ray.
Local Open Scope float_scope.

(** X15. Going backwards along a ray is going forwards along the ray of
    the negated direction: [r.at(-t)] is, bit for bit, [at(t)] of the ray
    built from [r.origin()] and [-r.direction()]. *)
Theorem at_negated_parameter (r : Ray float) (t : float) :
  exists d',
    result op_neg (dir r) = Some d' /\
    result (at_ (- t)) r = result (at_ t) (make (orig r) d').
Proof.
  destruct r as [[ox oy oz] [dx dy dz]]. eexists.
  split; [reflexivity|].
  cbn. unfold add, scale, Vec3.make. cbn.
  now rewrite !mul_opp_swap.
Qed.

End RayBackwards.
